(** * NAS command line parser (openair3/NAS/UE/nas_parser.c)

    A shallow embedding of the option table [nasParserCommandLine], of its
    typed accessors and of the local hexadecimal conversion [atohex],
    together with the properties the specification states about them.

    Conventions of the embedding:
    - a C [int] is a [Z] kept in the signed 32-bit range, every arithmetic
      operation wrapping around explicitly (module [Int]);
    - a [char] promoted to [int] is a [Z]; nothing below depends on the
      signedness of [char];
    - a [const char *] is a [pointer]: either [NULL] or an offset into a
      block of characters.  Reading outside the block, or through [NULL],
      has no defined result;
    - the file-scope table is passed to the accessors explicitly. *)

From Stdlib Require Import ZArith List String Ascii Bool Lia.
Import ListNotations.

Local Open Scope Z_scope.

(** ** Machine integers *)

Module Int.

Definition modulus : Z := 2 ^ 32.
Definition half_modulus : Z := 2 ^ 31.
Definition min_signed : Z := - half_modulus.
Definition max_signed : Z := half_modulus - 1.

(** The representative of [z] modulo 2^32 in the signed range. *)
Definition wrap (z : Z) : Z := (z + half_modulus) mod modulus - half_modulus.

Definition in_range (z : Z) : Prop := min_signed <= z <= max_signed.

Definition add (a b : Z) : Z := wrap (a + b).
Definition sub (a b : Z) : Z := wrap (a - b).
Definition shl (a n : Z) : Z := wrap (Z.shiftl a n).

End Int.

(** ** Characters, blocks and pointers *)

Definition char_of (a : ascii) : Z := Z.of_N (N_of_ascii a).

Notation "''0''" := 48 (only parsing) : Z_scope.
Notation "''9''" := 57 (only parsing) : Z_scope.
Notation "''A''" := 65 (only parsing) : Z_scope.
Notation "''F''" := 70 (only parsing) : Z_scope.
Notation "''a''" := 97 (only parsing) : Z_scope.
Notation "''f''" := 102 (only parsing) : Z_scope.

Inductive pointer : Type :=
| NULL : pointer
| Ptr (blk : list Z) (ofs : nat) : pointer.

Definition is_null (p : pointer) : bool :=
  match p with NULL => true | Ptr _ _ => false end.

(** [*p]: defined only inside the block. *)
Definition load (p : pointer) : option Z :=
  match p with
  | NULL => None
  | Ptr blk ofs => nth_error blk ofs
  end.

(** [p++] *)
Definition incr (p : pointer) : pointer :=
  match p with
  | NULL => NULL
  | Ptr blk ofs => Ptr blk (S ofs)
  end.

(** The characters from [p] to the end of its block. *)
Definition chars_at (p : pointer) : list Z :=
  match p with
  | NULL => []
  | Ptr blk ofs => skipn ofs blk
  end.

Fixpoint chars (s : string) : list Z :=
  match s with
  | EmptyString => []
  | String a s' => char_of a :: chars s'
  end.

(** The array a string literal denotes: its characters and the
    terminating NUL. *)
Definition cstr (s : string) : list Z := chars s ++ [0].

Definition string_literal (s : string) : pointer := Ptr (cstr s) 0.

Arguments chars s%_string.
Arguments cstr s%_string.
Arguments string_literal s%_string.

(** [p] points into a block holding a NUL at or after [p]. *)
Definition nul_terminated (p : pointer) : bool :=
  existsb (Z.eqb 0) (chars_at p).

(** ** Results of running C code *)

Inductive outcome : Type :=
| Return (r : Z)
| Undefined
| OutOfFuel.

(** ** atohex *)

(** The [for] loop of [atohex], one unit of fuel per evaluation of its
    condition.  The condition is [a_char], the pointer itself; the body
    reads [*a_char]. *)
Fixpoint atohex_loop (fuel : nat) (result : Z) (a_char : pointer) : outcome :=
  match fuel with
  | O => OutOfFuel
  | S fuel' =>
      if is_null a_char then Return result
      else
        match load a_char with
        | None => Undefined
        | Some c =>
            if ('0' <=? c) && (c <=? '9') then
              atohex_loop fuel'
                (Int.add (Int.shl result 4) (Int.sub c '0')) (incr a_char)
            else if ('A' <=? c) && (c <=? 'F') then
              atohex_loop fuel'
                (Int.add (Int.shl result 4) (Int.add (Int.sub c 'A') 10))
                (incr a_char)
            else if ('a' <=? c) && (c <=? 'f') then
              atohex_loop fuel'
                (Int.add (Int.shl result 4) (Int.add (Int.sub c 'a') 10))
                (incr a_char)
            else Return result
        end
  end.

(** No run evaluates the loop condition more often than this: every
    iteration but the last moves the pointer one character forward, and a
    read past the block is undefined. *)
Definition iterations_bound (p : pointer) : nat :=
  S (List.length (chars_at p)).

Definition atohex (a_char : pointer) : outcome :=
  atohex_loop (iterations_bound a_char) 0 a_char.

(** ** The standard decimal parser

    [atoi] is the C library's (the source includes <stdlib.h> for it), so
    it is described after ISO C 7.22.1: [atoi(nptr)] is
    [(int)strtol(nptr, NULL, 10)], which skips white space, takes an
    optional sign and then the longest run of decimal digits; a value that
    does not fit an [int] has no defined result.  Running off the block
    (no terminator) is undefined as for [atohex]. *)

Definition isspace (c : Z) : bool := (c =? 32) || ((9 <=? c) && (c <=? 13)).
Definition isdigit (c : Z) : bool := ('0' <=? c) && (c <=? '9').
Definition is_sign (c : Z) : bool := (c =? 43) || (c =? 45).

Fixpoint atoi_digits (acc : Z) (cs : list Z) : option Z :=
  match cs with
  | [] => None
  | c :: cs' =>
      if isdigit c then atoi_digits (10 * acc + (c - '0')) cs' else Some acc
  end.

Definition atoi_signed (cs : list Z) : option Z :=
  match cs with
  | [] => None
  | c :: cs' =>
      if c =? 45 then option_map Z.opp (atoi_digits 0 cs')
      else if c =? 43 then atoi_digits 0 cs'
      else atoi_digits 0 cs
  end.

Fixpoint atoi_skip (cs : list Z) : option Z :=
  match cs with
  | [] => None
  | c :: cs' => if isspace c then atoi_skip cs' else atoi_signed cs
  end.

Definition atoi (nptr : pointer) : outcome :=
  match atoi_skip (chars_at nptr) with
  | Some v =>
      if (Int.min_signed <=? v) && (v <=? Int.max_signed) then Return v
      else Undefined
  | None => Undefined
  end.

(** ** The option table *)

(** Identifiers of the NAS command line options (the anonymous [enum]). *)
Definition NAS_PARSER_UE_ID : nat := 0.
Definition NAS_PARSER_TRACE_LEVEL : nat := 1.
Definition NAS_PARSER_USER_HOST : nat := 2.
Definition NAS_PARSER_NETWORK_HOST : nat := 3.
Definition NAS_PARSER_USER_PORT : nat := 4.
Definition NAS_PARSER_NETWORK_PORT : nat := 5.
Definition NAS_PARSER_DEVICE_PATH : nat := 6.
Definition NAS_PARSER_DEVICE_ATTR : nat := 7.
Definition NAS_PARSER_NB_OPTIONS : nat := 8.

(** Modelled from the spec: the types [parser_option_t] and
    [parser_command_line_t] are declared in parser.h, which is not part of
    the sources at hand.  The spec's option descriptor has a name, an
    argument placeholder, a usage text and a value; the table initialises
    these four in that order and the accessors read the value through the
    member [pvalue].  The table has a command name, a count and the
    descriptors. *)
Record parser_option_t : Type := mk_option {
  opt_name : pointer;
  opt_argument : pointer;
  opt_usage : pointer;
  pvalue : pointer
}.

Record parser_command_line_t : Type := mk_command_line {
  cmd_name : pointer;
  nb_options : Z;
  options : list parser_option_t
}.

(** The string macros of nas_parser.h, which is not part of the sources at
    hand either: they are taken as parameters. *)
Record default_macros : Type := mk_defaults {
  NAS_PARSER_DEFAULT_UE_ID : string;
  NAS_PARSER_DEFAULT_TRACE_LEVEL : string;
  NAS_PARSER_DEFAULT_NETWORK_HOSTNAME : string;
  NAS_PARSER_DEFAULT_USER_PORT_NUMBER : string;
  NAS_PARSER_DEFAULT_NETWORK_PORT_NUMBER : string
}.

Definition TAB : string := String (ascii_of_nat 9) EmptyString.

Local Open Scope string_scope.

Definition nasParserCommandLine (D : default_macros) : parser_command_line_t :=
  let lit := string_literal in
  {| cmd_name := lit "NASprocess";
     nb_options := Z.of_nat NAS_PARSER_NB_OPTIONS;
     options :=
       [ mk_option (lit "-ueid") (lit "<ueid>")
           (lit ("UE identifier" ++ TAB ++ TAB ++ TAB))
           (lit (NAS_PARSER_DEFAULT_UE_ID D));
         mk_option (lit "-trace") (lit "<mask>")
           (lit ("Logging trace level" ++ TAB ++ TAB))
           (lit (NAS_PARSER_DEFAULT_TRACE_LEVEL D));
         mk_option (lit "-uhost") (lit "<uhost>")
           (lit ("User app layer's hostname" ++ TAB))
           (lit "NULL");
         mk_option (lit "-nhost") (lit "<nhost>")
           (lit ("Network layer's hostname" ++ TAB))
           (lit (NAS_PARSER_DEFAULT_NETWORK_HOSTNAME D));
         mk_option (lit "-uport") (lit "<uport>")
           (lit ("User app layer's port number" ++ TAB))
           (lit (NAS_PARSER_DEFAULT_USER_PORT_NUMBER D));
         mk_option (lit "-nport") (lit "<nport>")
           (lit ("Network layer's port number" ++ TAB))
           (lit (NAS_PARSER_DEFAULT_NETWORK_PORT_NUMBER D));
         mk_option (lit "-dev") (lit "<devpath>")
           (lit ("Device pathname" ++ TAB ++ TAB))
           (lit "NULL");
         mk_option (lit "-params") (lit "<params>")
           (lit "Device attribute parameters")
           (lit "NULL") ] |}.

Local Close Scope string_scope.

(** Some values for the macros, to build concrete tables with. *)
Definition sample_macros : default_macros :=
  mk_defaults "1" "0" "localhost" "10000" "12000".

(** An array element the initialiser does not reach is zero-initialised. *)
Definition zero_option : parser_option_t := mk_option NULL NULL NULL NULL.

(** [cl.options[id]] *)
Definition option_at (cl : parser_command_line_t) (id : nat) : parser_option_t :=
  nth id (options cl) zero_option.

(** ** Exported functions *)

Definition nas_parser_get_nb_options (cl : parser_command_line_t) : Z :=
  nb_options cl.

Definition nas_parser_get_trace_level (cl : parser_command_line_t) : outcome :=
  atohex (pvalue (option_at cl NAS_PARSER_TRACE_LEVEL)).

Definition nas_parser_get_network_host (cl : parser_command_line_t) : pointer :=
  pvalue (option_at cl NAS_PARSER_NETWORK_HOST).

Definition nas_parser_get_network_port (cl : parser_command_line_t) : pointer :=
  pvalue (option_at cl NAS_PARSER_NETWORK_PORT).

Definition nas_parser_get_ueid (cl : parser_command_line_t) : outcome :=
  atoi (pvalue (option_at cl NAS_PARSER_UE_ID)).

Definition nas_parser_get_user_host (cl : parser_command_line_t) : pointer :=
  pvalue (option_at cl NAS_PARSER_USER_HOST).

Definition nas_parser_get_user_port (cl : parser_command_line_t) : pointer :=
  pvalue (option_at cl NAS_PARSER_USER_PORT).

Definition nas_parser_get_device_path (cl : parser_command_line_t) : pointer :=
  pvalue (option_at cl NAS_PARSER_DEVICE_PATH).

Definition nas_parser_get_device_params (cl : parser_command_line_t) : pointer :=
  pvalue (option_at cl NAS_PARSER_DEVICE_ATTR).

(** ** The parsing engine, as far as the table is concerned *)

(** Modelled from the spec: [parser_get_options], which
    [nas_parser_get_options] hands the table to, is defined in parser.c,
    which is not part of the sources at hand.  The spec leaves its matching
    algorithm open and fixes its footprint on the table: it may overwrite
    the command name with the name the program was invoked under, and it
    gives each descriptor either the argument supplied for it or leaves
    its default; it touches nothing else.  [parser_store] is that
    footprint: [vs] lists, per descriptor, the argument supplied, if any. *)
Definition assign (o : parser_option_t) (v : option pointer) : parser_option_t :=
  match v with
  | Some p => mk_option (opt_name o) (opt_argument o) (opt_usage o) p
  | None => o
  end.

(** Modelled from the spec: the engine goes through the descriptors in
    table order; a descriptor with no entry in [vs] keeps its value. *)
Fixpoint assign_all (os : list parser_option_t) (vs : list (option pointer))
  : list parser_option_t :=
  match os, vs with
  | o :: os', v :: vs' => assign o v :: assign_all os' vs'
  | _, _ => os
  end.

(** Modelled from the spec: the table after [parser_get_options]; the
    count is not written. *)
Definition parser_store (cmd : pointer) (vs : list (option pointer))
  (cl : parser_command_line_t) : parser_command_line_t :=
  {| cmd_name := cmd;
     nb_options := nb_options cl;
     options := assign_all (options cl) vs |}.

(** Modelled from the spec: the states the table goes through are its
    static initial value, then whatever the engine stores. *)
Inductive reachable (D : default_macros) : parser_command_line_t -> Prop :=
| reachable_initial : reachable D (nasParserCommandLine D)
| reachable_parsed cl cmd vs :
    reachable D cl -> reachable D (parser_store cmd vs cl).

(** ** Reference notions the specification speaks in *)

(** A valid hex digit: [0-9], [A-F] or [a-f]. *)
Definition is_hex_digit (c : Z) : bool :=
  (('0' <=? c) && (c <=? '9'))
  || (('A' <=? c) && (c <=? 'F'))
  || (('a' <=? c) && (c <=? 'f')).

(** The value, 0 to 15, of a hex digit. *)
Definition hex_digit_value (c : Z) : Z :=
  if c <=? '9' then c - '0'
  else if c <=? 'F' then c - 'A' + 10
  else c - 'a' + 10.

(** The maximal leading run of hex digits. *)
Fixpoint hex_prefix (cs : list Z) : list Z :=
  match cs with
  | [] => []
  | c :: cs' => if is_hex_digit c then c :: hex_prefix cs' else []
  end.

(** A run of hex digits read as a base-16 number, most significant digit
    first, continuing the number [acc]. *)
Definition base16_from (acc : Z) (ds : list Z) : Z :=
  fold_left (fun v c => 16 * v + hex_digit_value c) ds acc.

Definition base16 (ds : list Z) : Z := base16_from 0 ds.

(** A run of decimal digits read as a base-10 number. *)
Definition base10 (ds : list Z) : Z :=
  fold_left (fun v c => 10 * v + (c - '0')) ds 0.

(** Nothing, or something that does not begin with a hex digit. *)
Definition no_hex_head (cs : list Z) : bool :=
  match cs with
  | [] => true
  | c :: _ => negb (is_hex_digit c)
  end.

(** Nothing, or something that begins with a character [atoi] neither
    skips nor reads: no white space, no sign, no digit. *)
Definition no_number_head (cs : list Z) : bool :=
  match cs with
  | [] => true
  | c :: _ => negb (isspace c) && negb (is_sign c) && negb (isdigit c)
  end.

(** Nothing, or something that does not begin with a decimal digit. *)
Definition no_digit_head (cs : list Z) : bool :=
  match cs with
  | [] => true
  | c :: _ => negb (isdigit c)
  end.

(** The other case of a letter digit; any other character is itself. *)
Definition case_swap (c : Z) : Z :=
  if ('A' <=? c) && (c <=? 'F') then c + 32
  else if ('a' <=? c) && (c <=? 'f') then c - 32
  else c.

(** [d] is [c], or [c] in the other case. *)
Definition same_hex_digit (c d : Z) : bool :=
  (d =? c) || (d =? case_swap c).

(** Two character sequences that differ only in the case of letter
    digits, at any set of positions. *)
Fixpoint case_variant (cs ds : list Z) : bool :=
  match cs, ds with
  | [], [] => true
  | c :: cs', d :: ds' => same_hex_digit c d && case_variant cs' ds'
  | _, _ => false
  end.

(** The loop of [atohex] read off the characters ahead of the pointer:
    what the run does, without pointers or fuel. *)
Fixpoint scan (result : Z) (cs : list Z) : outcome :=
  match cs with
  | [] => Undefined
  | c :: cs' =>
      if is_hex_digit c then
        scan (Int.wrap (16 * result + hex_digit_value c)) cs'
      else Return result
  end.

(** ** Usage printing *)

(** What [%s] prints for a block: the characters before its first NUL.
    A block without one is read past its end. *)
Fixpoint until_nul (cs : list Z) : option (list Z) :=
  match cs with
  | [] => None
  | c :: cs' =>
      if c =? 0 then Some [] else option_map (cons c) (until_nul cs')
  end.

Definition c_string (p : pointer) : option (list Z) := until_nul (chars_at p).



(** The names of the options of a table, as character sequences. *)
Definition option_names (cl : parser_command_line_t) : list (option (list Z)) :=
  map (fun o => c_string (opt_name o)) (options cl).

(** ** Facts about machine integers *)

Module IntFacts.

Lemma modulus_eq : Int.modulus = 4294967296.
Proof. reflexivity. Qed.

Lemma half_modulus_eq : Int.half_modulus = 2147483648.
Proof. reflexivity. Qed.

Lemma wrap_range (z : Z) : Int.in_range (Int.wrap z).
Proof.
  unfold Int.in_range, Int.wrap, Int.min_signed, Int.max_signed.
  rewrite modulus_eq, half_modulus_eq.
  pose proof (Z.mod_pos_bound (z + 2147483648) 4294967296 eq_refl). lia.
Qed.

Lemma wrap_small (z : Z) : Int.in_range z -> Int.wrap z = z.
Proof.
  unfold Int.in_range, Int.wrap, Int.min_signed, Int.max_signed.
  rewrite modulus_eq, half_modulus_eq. intros H.
  rewrite Z.mod_small; lia.
Qed.

Lemma wrap_shift (a b k : Z) : a = b + k * Int.modulus -> Int.wrap a = Int.wrap b.
Proof.
  intros ->. unfold Int.wrap.
  replace (b + k * Int.modulus + Int.half_modulus)
    with (b + Int.half_modulus + k * Int.modulus) by ring.
  now rewrite Z_mod_plus_full.
Qed.

Lemma wrap_decomp (z : Z) : exists k, Int.wrap z = z + k * Int.modulus.
Proof.
  exists (- ((z + Int.half_modulus) / Int.modulus)). unfold Int.wrap.
  rewrite Z.mod_eq by (rewrite modulus_eq; lia). ring.
Qed.

Lemma wrap_mod (z : Z) : Int.wrap z mod Int.modulus = z mod Int.modulus.
Proof.
  destruct (wrap_decomp z) as [k ->]. apply Z_mod_plus_full.
Qed.

Lemma wrap_idem (z : Z) : Int.wrap (Int.wrap z) = Int.wrap z.
Proof. apply wrap_small, wrap_range. Qed.

(** One more digit: the wrapped accumulator can stand for the unwrapped
    one. *)
Lemma wrap_digit (v d : Z) :
  Int.wrap (16 * Int.wrap v + d) = Int.wrap (16 * v + d).
Proof.
  destruct (wrap_decomp v) as [k ->].
  apply wrap_shift with (k := 16 * k). ring.
Qed.

(** The update [(result << 4) + d] of the source, for a digit value
    [d]. *)
Lemma shl4_add (result d : Z) :
  0 <= d <= 15 ->
  Int.add (Int.shl result 4) d = Int.wrap (16 * result + d).
Proof.
  intros Hd. unfold Int.add, Int.shl.
  rewrite Z.shiftl_mul_pow2 by lia.
  replace (result * 2 ^ 4) with (16 * result) by (change (2 ^ 4) with 16; ring).
  destruct (wrap_decomp (16 * result)) as [k ->].
  apply wrap_shift with (k := k). ring.
Qed.

(** After the shift the four low bits are clear, so adding a digit value
    never leaves the range: the addition itself cannot overflow. *)
Lemma shl4_add_no_overflow (result d : Z) :
  0 <= d <= 15 -> Int.in_range (Int.shl result 4 + d).
Proof.
  intros Hd. unfold Int.shl.
  rewrite Z.shiftl_mul_pow2 by lia. change (2 ^ 4) with 16.
  pose proof (wrap_range (result * 16)) as Hr.
  destruct (wrap_decomp (result * 16)) as [k Hk].
  unfold Int.in_range, Int.min_signed, Int.max_signed in *.
  rewrite modulus_eq in Hk. rewrite half_modulus_eq in *.
  assert (Hm : Int.wrap (result * 16) = 16 * (result + k * 268435456)) by lia.
  lia.
Qed.

End IntFacts.

(** ** Blocks and strings *)

Lemma skipn_cons_nth_error (blk : list Z) : forall ofs c,
  nth_error blk ofs = Some c -> skipn ofs blk = c :: skipn (S ofs) blk.
Proof.
  induction blk as [|b blk IH]; intros [|ofs] c H; simpl in H; try discriminate.
  - now injection H as ->.
  - now apply IH.
Qed.

Lemma skipn_nil_nth_error (blk : list Z) (ofs : nat) :
  nth_error blk ofs = None -> skipn ofs blk = [].
Proof.
  intros H. apply skipn_all2. now apply nth_error_None.
Qed.

Lemma chars_append (s t : string) :
  chars (s ++ t) = chars s ++ chars t.
Proof.
  induction s as [|a s IH]; simpl; [reflexivity | now rewrite IH].
Qed.

Lemma chars_at_string_literal (s : string) :
  chars_at (string_literal s) = chars s ++ [0].
Proof. reflexivity. Qed.

Lemma incr_not_null (p : pointer) : is_null p = false -> is_null (incr p) = false.
Proof. now destruct p. Qed.

(** ** Hex digits *)

Lemma is_hex_digit_cases (c : Z) :
  is_hex_digit c = true <->
  ('0' <= c <= '9') \/ ('A' <= c <= 'F') \/ ('a' <= c <= 'f').
Proof. unfold is_hex_digit. lia. Qed.

Lemma hex_digit_value_range (c : Z) :
  is_hex_digit c = true -> 0 <= hex_digit_value c <= 15.
Proof.
  rewrite is_hex_digit_cases. unfold hex_digit_value.
  destruct (Z.leb_spec c '9'), (Z.leb_spec c 'F'); lia.
Qed.

Lemma nul_not_hex : is_hex_digit 0 = false.
Proof. reflexivity. Qed.

Lemma hex_prefix_length_le (cs : list Z) :
  (List.length (hex_prefix cs) <= List.length cs)%nat.
Proof.
  induction cs as [|c cs IH]; simpl; [lia|].
  destruct (is_hex_digit c); simpl; lia.
Qed.

(** A terminator ends the hex prefix before the end of the block. *)
Lemma hex_prefix_stops (cs : list Z) :
  existsb (Z.eqb 0) cs = true ->
  (List.length (hex_prefix cs) < List.length cs)%nat.
Proof.
  induction cs as [|c cs IH]; cbn [existsb hex_prefix]; [discriminate|].
  destruct (Z.eqb_spec 0 c) as [<-|_]; cbn [orb].
  - intros _. rewrite nul_not_hex. cbn [List.length]. lia.
  - intros H. destruct (is_hex_digit c); cbn [List.length];
      [apply IH in H|]; lia.
Qed.

Lemma hex_prefix_app (ds rest : list Z) :
  forallb is_hex_digit ds = true -> no_hex_head rest = true ->
  hex_prefix (ds ++ rest) = ds.
Proof.
  intros Hds Hrest. induction ds as [|d ds IH]; simpl in *.
  - destruct rest as [|c rest]; simpl in *; [reflexivity|].
    now destruct (is_hex_digit c).
  - apply andb_prop in Hds as [-> Hds]. now rewrite IH.
Qed.

Lemma no_hex_head_terminated (rest : list Z) :
  no_hex_head rest = true -> no_hex_head (rest ++ [0]) = true.
Proof. now destruct rest. Qed.

Lemma existsb_nul_cstr (s : string) : existsb (Z.eqb 0) (cstr s) = true.
Proof.
  unfold cstr. rewrite existsb_app. simpl. apply orb_true_r.
Qed.

(** ** The loop against the characters ahead *)

(** The three updates of the source are one: sixteen times the
    accumulator plus the digit's value, wrapped. *)
Lemma update_digit (result c : Z) :
  '0' <= c <= '9' ->
  Int.add (Int.shl result 4) (Int.sub c '0')
  = Int.wrap (16 * result + hex_digit_value c).
Proof.
  intros H. unfold Int.sub.
  rewrite IntFacts.wrap_small
    by (unfold Int.in_range, Int.min_signed, Int.max_signed;
        rewrite IntFacts.half_modulus_eq; lia).
  rewrite IntFacts.shl4_add by lia.
  unfold hex_digit_value. destruct (Z.leb_spec c '9'); [reflexivity | lia].
Qed.

Lemma update_upper (result c : Z) :
  'A' <= c <= 'F' ->
  Int.add (Int.shl result 4) (Int.add (Int.sub c 'A') 10)
  = Int.wrap (16 * result + hex_digit_value c).
Proof.
  intros H. unfold Int.sub, Int.add at 2.
  rewrite !IntFacts.wrap_small
    by (rewrite ?IntFacts.wrap_small;
        unfold Int.in_range, Int.min_signed, Int.max_signed;
        rewrite IntFacts.half_modulus_eq; lia).
  rewrite IntFacts.shl4_add by lia.
  unfold hex_digit_value.
  destruct (Z.leb_spec c '9'); [lia|].
  destruct (Z.leb_spec c 'F'); [reflexivity | lia].
Qed.

Lemma update_lower (result c : Z) :
  'a' <= c <= 'f' ->
  Int.add (Int.shl result 4) (Int.add (Int.sub c 'a') 10)
  = Int.wrap (16 * result + hex_digit_value c).
Proof.
  intros H. unfold Int.sub, Int.add at 2.
  rewrite !IntFacts.wrap_small
    by (rewrite ?IntFacts.wrap_small;
        unfold Int.in_range, Int.min_signed, Int.max_signed;
        rewrite IntFacts.half_modulus_eq; lia).
  rewrite IntFacts.shl4_add by lia.
  unfold hex_digit_value.
  destruct (Z.leb_spec c '9'); [lia|].
  destruct (Z.leb_spec c 'F'); [lia | reflexivity].
Qed.

(** What a run on [fuel] does: it is still looping when the fuel is
    spent within the hex prefix, and otherwise it has done what [scan]
    reads off the characters ahead. *)
Lemma atohex_loop_scan (fuel : nat) : forall result blk ofs,
  atohex_loop fuel result (Ptr blk ofs) =
  if (fuel <=? List.length (hex_prefix (skipn ofs blk)))%nat
  then OutOfFuel
  else scan result (skipn ofs blk).
Proof.
  induction fuel as [|fuel IH]; intros result blk ofs; [reflexivity|].
  cbn [atohex_loop is_null load incr].
  destruct (nth_error blk ofs) as [c|] eqn:Hc.
  - rewrite (skipn_cons_nth_error _ _ _ Hc). cbn [hex_prefix scan].
    unfold is_hex_digit.
    destruct (('0' <=? c) && (c <=? '9')) eqn:H09.
    { cbn [orb List.length Nat.leb]. rewrite IH, update_digit by lia.
      reflexivity. }
    destruct (('A' <=? c) && (c <=? 'F')) eqn:HAF.
    { cbn [orb List.length Nat.leb]. rewrite IH, update_upper by lia.
      reflexivity. }
    destruct (('a' <=? c) && (c <=? 'f')) eqn:Haf.
    { cbn [orb List.length Nat.leb]. rewrite IH, update_lower by lia.
      reflexivity. }
    reflexivity.
  - rewrite (skipn_nil_nth_error _ _ Hc). reflexivity.
Qed.

(** With the fuel [atohex] grants, the run is [scan]. *)
Lemma atohex_scan (p : pointer) :
  is_null p = false -> atohex p = scan 0 (chars_at p).
Proof.
  destruct p as [|blk ofs]; [discriminate|]. intros _.
  unfold atohex, iterations_bound. rewrite atohex_loop_scan.
  cbn [chars_at].
  pose proof (hex_prefix_length_le (skipn ofs blk)) as Hle.
  destruct (Nat.leb_spec (S (List.length (skipn ofs blk)))
              (List.length (hex_prefix (skipn ofs blk)))); [lia | reflexivity].
Qed.

(** [scan] against the base-16 reading of the hex prefix. *)
Lemma scan_base16 (cs : list Z) : forall v,
  scan (Int.wrap v) cs =
  if (List.length (hex_prefix cs) <? List.length cs)%nat
  then Return (Int.wrap (base16_from v (hex_prefix cs)))
  else Undefined.
Proof.
  induction cs as [|c cs IH]; intros v; [reflexivity|].
  cbn [scan hex_prefix]. destruct (is_hex_digit c) eqn:Hc.
  - rewrite IntFacts.wrap_digit, IH. reflexivity.
  - reflexivity.
Qed.

(** The result of [atohex] on any terminated string. *)
Lemma atohex_terminated (p : pointer) :
  nul_terminated p = true ->
  atohex p = Return (Int.wrap (base16 (hex_prefix (chars_at p)))).
Proof.
  intros Hnul.
  assert (Hp : is_null p = false) by (now destruct p).
  rewrite (atohex_scan p Hp).
  change 0 with (Int.wrap 0) at 1. rewrite scan_base16.
  apply hex_prefix_stops in Hnul.
  destruct (Nat.ltb_spec (List.length (hex_prefix (chars_at p)))
              (List.length (chars_at p))); [reflexivity | lia].
Qed.

Lemma nul_terminated_string_literal (s : string) :
  nul_terminated (string_literal s) = true.
Proof. apply existsb_nul_cstr. Qed.

Lemma base16_from_nonneg (ds : list Z) : forall acc,
  forallb is_hex_digit ds = true -> 0 <= acc -> 0 <= base16_from acc ds.
Proof.
  unfold base16_from.
  induction ds as [|d ds IH]; intros acc Hds Hacc;
    cbn [fold_left forallb] in *; [assumption|].
  apply andb_prop in Hds as [Hd Hds]. apply IH; [assumption|].
  pose proof (hex_digit_value_range d Hd). lia.
Qed.

(** The hex prefix of a literal made of hex digits [ds] and of a rest
    that does not go on with one. *)
Lemma hex_prefix_literal (ds rest : string) :
  forallb is_hex_digit (chars ds) = true ->
  no_hex_head (chars rest) = true ->
  hex_prefix (chars_at (string_literal (ds ++ rest))) = chars ds.
Proof.
  intros Hds Hrest.
  rewrite chars_at_string_literal, chars_append, <- app_assoc.
  apply hex_prefix_app; [assumption|].
  now apply no_hex_head_terminated.
Qed.

(** The result on such a literal, before any assumption on its size. *)
Lemma atohex_literal (ds rest : string) :
  forallb is_hex_digit (chars ds) = true ->
  no_hex_head (chars rest) = true ->
  atohex (string_literal (ds ++ rest)) = Return (Int.wrap (base16 (chars ds))).
Proof.
  intros Hds Hrest.
  rewrite atohex_terminated by apply nul_terminated_string_literal.
  now rewrite hex_prefix_literal.
Qed.

(** ** The hex accessor: value of the result *)

(** C1, as the code has it: for a string made of hex digits [ds]
    (possibly none) followed by a [rest] that is empty or begins with a
    character that is not a hex digit, [atohex] returns the base-16 number
    the digits [ds] spell, provided that number fits a signed 32-bit
    [int]; so [atohex("1G3")] is 1. *)
Theorem atohex_hex_prefix_value (ds rest : string) :
  forallb is_hex_digit (chars ds) = true ->
  no_hex_head (chars rest) = true ->
  base16 (chars ds) <= Int.max_signed ->
  atohex (string_literal (ds ++ rest)) = Return (base16 (chars ds)).
Proof.
  intros Hds Hrest Hfit.
  rewrite atohex_literal by assumption.
  rewrite IntFacts.wrap_small; [reflexivity|].
  pose proof (base16_from_nonneg (chars ds) 0 Hds (Z.le_refl 0)) as Hpos.
  unfold Int.in_range, Int.min_signed, base16 in *.
  rewrite IntFacts.half_modulus_eq. lia.
Qed.

Lemma atohex_hex_prefix_value_1G3 :
  forallb is_hex_digit (chars "1") = true /\
  no_hex_head (chars "G3") = true /\
  base16 (chars "1") <= Int.max_signed /\
  atohex (string_literal ("1" ++ "G3")) = Return 1.
Proof.
  split; [reflexivity|]. split; [reflexivity|].
  split; [discriminate|].
  apply (atohex_hex_prefix_value "1" "G3");
    [reflexivity | reflexivity | discriminate].
Defined.

(** C1 as stated fails where the number does not fit: eight digits [F]
    spell 4294967295, and [atohex] returns -1. *)
Lemma atohex_FFFFFFFF_is_not_its_base16 :
  forallb is_hex_digit (chars "FFFFFFFF") = true /\
  no_hex_head (chars "") = true /\
  base16 (chars "FFFFFFFF") = 4294967295 /\
  atohex (string_literal ("FFFFFFFF" ++ "")) = Return (-1) /\
  atohex (string_literal ("FFFFFFFF" ++ ""))
    <> Return (base16 (chars "FFFFFFFF")).
Proof.
  repeat split; try reflexivity. vm_compute. discriminate.
Qed.

(** ** The hex accessor: null input *)

(** C2, as the code has it: the loop condition is the pointer itself, not
    the character it points to; on a null input it is false the first
    time it is evaluated, whatever the accumulator, so the body, the only
    place that dereferences, is never run, and [atohex] returns 0. *)
Theorem atohex_null_returns :
  (forall fuel result, atohex_loop (S fuel) result NULL = Return result) /\
  atohex NULL = Return 0.
Proof. split; reflexivity. Qed.

(** C2 as stated fails: a read through [NULL] has no defined result, and
    yet [atohex NULL] is a plain 0. *)
Lemma atohex_null_is_defined :
  load NULL = None /\ atohex NULL = Return 0 /\ atohex NULL <> Undefined.
Proof. repeat split. discriminate. Qed.

(** ** The hex accessor: nothing to read *)

(** C3: on a null input, on the empty string and on any string that does
    not begin with a hex digit, [atohex] returns 0, the initial value of
    the accumulator. *)
Theorem atohex_no_leading_digit :
  atohex NULL = Return 0 /\
  atohex (string_literal "") = Return 0 /\
  (forall s : string,
      no_hex_head (chars s) = true -> atohex (string_literal s) = Return 0).
Proof.
  split; [reflexivity|]. split; [reflexivity|].
  intros s Hs.
  now apply (atohex_literal "" s).
Qed.

Lemma atohex_no_leading_digit_G1 :
  no_hex_head (chars "G1") = true /\ atohex (string_literal "G1") = Return 0.
Proof.
  split; [reflexivity|].
  apply (proj2 (proj2 atohex_no_leading_digit) "G1"%string). reflexivity.
Defined.

(** ** The hex accessor: overflow *)

(** One iteration on a hex digit: sixteen times the accumulator plus the
    digit's value, wrapped to 32 bits, and on to the next character. *)
Lemma atohex_loop_step (fuel : nat) (result : Z) (blk : list Z) (ofs : nat) (c : Z) :
  nth_error blk ofs = Some c -> is_hex_digit c = true ->
  atohex_loop (S fuel) result (Ptr blk ofs)
  = atohex_loop fuel (Int.wrap (16 * result + hex_digit_value c))
      (Ptr blk (S ofs)).
Proof.
  intros Hc Hhex. rewrite !atohex_loop_scan.
  rewrite (skipn_cons_nth_error _ _ _ Hc).
  cbn [hex_prefix scan]. rewrite Hhex. reflexivity.
Qed.

(** C4: nothing checks for overflow.  Every iteration on a digit replaces
    the accumulator by sixteen times itself plus the digit's value,
    reduced modulo 2^32 into the signed range; and on every terminated
    string, however many hex digits it begins with (more than 8
    included), [atohex] returns the base-16 number its hex prefix spells,
    reduced modulo 2^32 and read as a signed 32-bit integer. *)
Theorem atohex_wraps_around :
  (forall fuel result blk ofs c,
      nth_error blk ofs = Some c -> is_hex_digit c = true ->
      atohex_loop (S fuel) result (Ptr blk ofs)
      = atohex_loop fuel (Int.wrap (16 * result + hex_digit_value c))
          (Ptr blk (S ofs))) /\
  (forall p,
      nul_terminated p = true ->
      exists r,
        atohex p = Return r /\
        Int.in_range r /\
        r mod Int.modulus = base16 (hex_prefix (chars_at p)) mod Int.modulus).
Proof.
  split; [exact atohex_loop_step|].
  intros p Hp. exists (Int.wrap (base16 (hex_prefix (chars_at p)))).
  split; [now apply atohex_terminated|].
  split; [apply IntFacts.wrap_range | apply IntFacts.wrap_mod].
Qed.

Lemma atohex_wraps_around_nine_digits :
  nul_terminated (string_literal "123456789") = true /\
  exists r,
    atohex (string_literal "123456789") = Return r /\
    Int.in_range r /\
    r mod Int.modulus
    = base16 (hex_prefix (chars_at (string_literal "123456789")))
        mod Int.modulus.
Proof.
  split; [reflexivity|].
  apply (proj2 atohex_wraps_around (string_literal "123456789")).
  reflexivity.
Defined.

(** Nine digits: the leading one is shifted out. *)
Example atohex_123456789 :
  atohex (string_literal "123456789") = Return 591751049 /\
  base16 (chars "123456789") = 4886718345 /\
  4886718345 mod Int.modulus = 591751049.
Proof. repeat split; vm_compute; reflexivity. Qed.

(** ** The hex accessor: case *)

Lemma same_hex_digit_class (c d : Z) :
  same_hex_digit c d = true ->
  is_hex_digit d = is_hex_digit c /\ hex_digit_value d = hex_digit_value c.
Proof.
  unfold same_hex_digit, case_swap, is_hex_digit, hex_digit_value.
  intros H.
  destruct (Z.leb_spec 'A' c), (Z.leb_spec c 'F'),
           (Z.leb_spec 'a' c), (Z.leb_spec c 'f');
    cbn [andb] in H; try lia;
    (assert (Hd : d = c \/ d = c + 32 \/ d = c - 32) by lia);
    (split;
     [ apply eq_true_iff_eq; rewrite !orb_true_iff, !andb_true_iff,
         !Z.leb_le; lia
     | destruct (Z.leb_spec d '9'), (Z.leb_spec d 'F'),
                (Z.leb_spec c '9'); lia ]).
Qed.

Lemma scan_case_variant (cs : list Z) : forall ds result,
  case_variant cs ds = true -> scan result cs = scan result ds.
Proof.
  induction cs as [|c cs IH]; intros [|d ds] result H;
    cbn [case_variant] in H; try discriminate; [reflexivity|].
  apply andb_prop in H as [Hcd H].
  destruct (same_hex_digit_class c d Hcd) as [Hh Hv].
  cbn [scan]. rewrite Hh, Hv, (IH ds) by assumption. reflexivity.
Qed.

Lemma case_variant_terminated (cs : list Z) : forall ds,
  case_variant cs ds = true -> case_variant (cs ++ [0]) (ds ++ [0]) = true.
Proof.
  induction cs as [|c cs IH]; intros [|d ds] H;
    cbn [case_variant app] in *; try discriminate; [reflexivity|].
  apply andb_prop in H as [-> H]. now apply IH.
Qed.

(** C5: the case of letter digits does not matter.  Two strings that
    differ only in that some digits [a]-[f] of the one are [A]-[F] in the
    other, or the other way round, give the same result; in particular
    ["aB"], ["Ab"] and ["AB"] all give 171. *)
Theorem atohex_case_insensitive :
  (forall s t : string,
      case_variant (chars s) (chars t) = true ->
      atohex (string_literal s) = atohex (string_literal t)) /\
  atohex (string_literal "aB") = Return 171 /\
  atohex (string_literal "Ab") = Return 171 /\
  atohex (string_literal "AB") = Return 171.
Proof.
  split; [|repeat split].
  intros s t H.
  rewrite !atohex_scan by reflexivity.
  apply scan_case_variant. rewrite !chars_at_string_literal.
  now apply case_variant_terminated.
Qed.

Lemma atohex_case_insensitive_dead_beef :
  case_variant (chars "dEaDbeEF") (chars "DeadBEef") = true /\
  atohex (string_literal "dEaDbeEF") = atohex (string_literal "DeadBEef").
Proof.
  split; [reflexivity|].
  apply (proj1 atohex_case_insensitive "dEaDbeEF"%string "DeadBEef"%string).
  reflexivity.
Defined.

(** ** The hex accessor: the 0x prefix *)

(** C9: a C-style prefix is not recognised.  On any string that begins
    with ['0'] and ['x'], or with ['0'] and ['X'], the leading zero adds
    nothing, the next character stops the scan, and [atohex] returns 0;
    so for ["0x1F"]. *)
Theorem atohex_0x_prefix (rest : string) :
  atohex (string_literal ("0x" ++ rest)) = Return 0 /\
  atohex (string_literal ("0X" ++ rest)) = Return 0 /\
  atohex (string_literal "0x1F") = Return 0.
Proof.
  split; [|split].
  - now apply (atohex_literal "0" (String "x" rest)).
  - now apply (atohex_literal "0" (String "X" rest)).
  - reflexivity.
Qed.

(** ** The hex accessor: termination *)

Lemma iter_incr_not_null (k : nat) (p : pointer) :
  is_null p = false -> is_null (Nat.iter k incr p) = false.
Proof.
  intros Hp. induction k as [|k IH]; [assumption|].
  cbn [Nat.iter]. now apply incr_not_null.
Qed.

(** C10: on a non-null pointer to a terminated string the loop ends.
    Incrementing never makes the pointer null, so the loop condition
    stays true; the run is still looping while it is within the hex
    prefix; and it returns as soon as it has fuel for one iteration more
    than the prefix is long, the one that reads the first character that
    is not a hex digit (the terminator at the latest) and breaks. *)
Theorem atohex_loop_terminates (p : pointer) :
  is_null p = false ->
  nul_terminated p = true ->
  (forall k, is_null (Nat.iter k incr p) = false) /\
  (forall fuel,
      (fuel <= List.length (hex_prefix (chars_at p)))%nat ->
      atohex_loop fuel 0 p = OutOfFuel) /\
  (exists r, forall fuel,
      (List.length (hex_prefix (chars_at p)) < fuel)%nat ->
      atohex_loop fuel 0 p = Return r).
Proof.
  intros Hnull Hnul. split; [|split].
  - intros k. now apply iter_incr_not_null.
  - intros fuel Hfuel. destruct p as [|blk ofs]; [discriminate|].
    rewrite atohex_loop_scan. cbn [chars_at] in Hfuel.
    now apply Nat.leb_le in Hfuel as ->.
  - exists (Int.wrap (base16 (hex_prefix (chars_at p)))).
    intros fuel Hfuel. destruct p as [|blk ofs]; [discriminate|].
    rewrite atohex_loop_scan. unfold nul_terminated in Hnul.
    cbn [chars_at] in *.
    apply Nat.leb_gt in Hfuel as ->.
    change 0 with (Int.wrap 0) at 1. rewrite scan_base16.
    apply hex_prefix_stops in Hnul.
    now apply Nat.ltb_lt in Hnul as ->.
Qed.

Lemma atohex_loop_terminates_1G3 :
  is_null (string_literal "1G3") = false /\
  nul_terminated (string_literal "1G3") = true /\
  (forall k, is_null (Nat.iter k incr (string_literal "1G3")) = false) /\
  (forall fuel,
      (fuel <= List.length (hex_prefix (chars_at (string_literal "1G3"))))%nat ->
      atohex_loop fuel 0 (string_literal "1G3") = OutOfFuel) /\
  (exists r, forall fuel,
      (List.length (hex_prefix (chars_at (string_literal "1G3"))) < fuel)%nat ->
      atohex_loop fuel 0 (string_literal "1G3") = Return r).
Proof.
  split; [reflexivity|]. split; [reflexivity|].
  apply (atohex_loop_terminates (string_literal "1G3")); reflexivity.
Defined.

(** Without a terminator nothing stops the loop inside the block: on a
    block of hex digits only, the run reads past the end. *)
Lemma atohex_unterminated (blk : list Z) :
  forallb is_hex_digit blk = true -> atohex (Ptr blk 0) = Undefined.
Proof.
  intros H. rewrite atohex_scan by reflexivity. cbn [chars_at skipn].
  generalize 0 at 1. induction blk as [|c blk IH]; intros r; [reflexivity|].
  cbn [forallb] in H. apply andb_prop in H as [Hc H].
  cbn [scan]. rewrite Hc. now apply IH.
Qed.

(** ** The table and its count *)

Lemma assign_all_length (os : list parser_option_t) : forall vs,
  List.length (assign_all os vs) = List.length os.
Proof.
  induction os as [|o os IH]; intros [|v vs]; cbn [assign_all List.length];
    try reflexivity.
  now rewrite IH.
Qed.

Lemma reachable_invariant (D : default_macros) (cl : parser_command_line_t) :
  reachable D cl ->
  nb_options cl = Z.of_nat NAS_PARSER_NB_OPTIONS /\
  List.length (options cl) = NAS_PARSER_NB_OPTIONS.
Proof.
  induction 1 as [|cl cmd vs _ [IHn IHl]]; [split; reflexivity|].
  cbn [parser_store nb_options options]. now rewrite assign_all_length.
Qed.

(** C6: in every state the table reaches, before parsing and after,
    [nas_parser_get_nb_options] returns the count member, which is 8 and
    is the number of descriptors the table holds. *)
Theorem nb_options_counts_descriptors (D : default_macros)
  (cl : parser_command_line_t) :
  reachable D cl ->
  nas_parser_get_nb_options cl = nb_options cl /\
  nas_parser_get_nb_options cl = 8 /\
  nas_parser_get_nb_options cl = Z.of_nat (List.length (options cl)).
Proof.
  intros H. destruct (reachable_invariant D cl H) as [Hn Hl].
  unfold nas_parser_get_nb_options. rewrite Hl, Hn. repeat split.
Qed.

Lemma nb_options_counts_descriptors_after_parsing :
  reachable sample_macros
    (parser_store (string_literal "nas")
       [None; Some (string_literal "3F"); Some (string_literal "host")]
       (nasParserCommandLine sample_macros)) /\
  nas_parser_get_nb_options
    (parser_store (string_literal "nas")
       [None; Some (string_literal "3F"); Some (string_literal "host")]
       (nasParserCommandLine sample_macros)) = 8.
Proof.
  split; [apply reachable_parsed, reachable_initial|].
  apply (nb_options_counts_descriptors sample_macros).
  apply reachable_parsed, reachable_initial.
Defined.

(** ** The string accessors *)

Lemma reachable_options (D : default_macros) (cl : parser_command_line_t) :
  reachable D cl ->
  exists o0 o1 o2 o3 o4 o5 o6 o7, options cl = [o0; o1; o2; o3; o4; o5; o6; o7].
Proof.
  intros H. apply reachable_invariant in H as [_ Hl].
  destruct (options cl) as [|o0 [|o1 [|o2 [|o3 [|o4 [|o5 [|o6 [|o7 [|o8 os]]]]]]]]];
    try discriminate.
  now exists o0, o1, o2, o3, o4, o5, o6, o7.
Qed.

(** Whatever the engine stores for the string options of a table in a
    reachable state is what the accessors then return. *)
Lemma string_accessors_after_store (D : default_macros)
  (cl : parser_command_line_t)
  (cmd : pointer) (ueid trace : option pointer)
  (uhost nhost uport nport dev params : pointer) :
  reachable D cl ->
  nas_parser_get_user_host
    (parser_store cmd [ueid; trace; Some uhost; Some nhost; Some uport;
                       Some nport; Some dev; Some params] cl) = uhost /\
  nas_parser_get_network_host
    (parser_store cmd [ueid; trace; Some uhost; Some nhost; Some uport;
                       Some nport; Some dev; Some params] cl) = nhost /\
  nas_parser_get_user_port
    (parser_store cmd [ueid; trace; Some uhost; Some nhost; Some uport;
                       Some nport; Some dev; Some params] cl) = uport /\
  nas_parser_get_network_port
    (parser_store cmd [ueid; trace; Some uhost; Some nhost; Some uport;
                       Some nport; Some dev; Some params] cl) = nport /\
  nas_parser_get_device_path
    (parser_store cmd [ueid; trace; Some uhost; Some nhost; Some uport;
                       Some nport; Some dev; Some params] cl) = dev /\
  nas_parser_get_device_params
    (parser_store cmd [ueid; trace; Some uhost; Some nhost; Some uport;
                       Some nport; Some dev; Some params] cl) = params.
Proof.
  intros H.
  destruct (reachable_options D cl H)
    as (o0 & o1 & o2 & o3 & o4 & o5 & o6 & o7 & Ho).
  unfold nas_parser_get_user_host, nas_parser_get_network_host,
    nas_parser_get_user_port, nas_parser_get_network_port,
    nas_parser_get_device_path, nas_parser_get_device_params,
    option_at, parser_store.
  cbn [options]. rewrite Ho. repeat split.
Qed.

(** C7: a string accessor returns the value pointer of its descriptor as
    it is.  Whatever the eight descriptors of the table hold, the user
    host accessor returns the value of the third, the network host
    accessor that of the fourth, the user port accessor that of the
    fifth, the network port accessor that of the sixth, the device path
    accessor that of the seventh and the device parameters accessor that
    of the eighth.  With the table at its initial value the user host,
    the device path and the device parameters are the literal ["NULL"],
    and the network host and the two ports are the literals of their
    macros. *)
Theorem string_accessors_return_values (D : default_macros) :
  (forall cmd n o0 o1 o2 o3 o4 o5 o6 o7,
      nas_parser_get_user_host
        (mk_command_line cmd n [o0; o1; o2; o3; o4; o5; o6; o7]) = pvalue o2 /\
      nas_parser_get_network_host
        (mk_command_line cmd n [o0; o1; o2; o3; o4; o5; o6; o7]) = pvalue o3 /\
      nas_parser_get_user_port
        (mk_command_line cmd n [o0; o1; o2; o3; o4; o5; o6; o7]) = pvalue o4 /\
      nas_parser_get_network_port
        (mk_command_line cmd n [o0; o1; o2; o3; o4; o5; o6; o7]) = pvalue o5 /\
      nas_parser_get_device_path
        (mk_command_line cmd n [o0; o1; o2; o3; o4; o5; o6; o7]) = pvalue o6 /\
      nas_parser_get_device_params
        (mk_command_line cmd n [o0; o1; o2; o3; o4; o5; o6; o7]) = pvalue o7) /\
  nas_parser_get_user_host (nasParserCommandLine D) = string_literal "NULL" /\
  nas_parser_get_device_path (nasParserCommandLine D) = string_literal "NULL" /\
  nas_parser_get_device_params (nasParserCommandLine D) = string_literal "NULL" /\
  nas_parser_get_network_host (nasParserCommandLine D)
  = string_literal (NAS_PARSER_DEFAULT_NETWORK_HOSTNAME D) /\
  nas_parser_get_user_port (nasParserCommandLine D)
  = string_literal (NAS_PARSER_DEFAULT_USER_PORT_NUMBER D) /\
  nas_parser_get_network_port (nasParserCommandLine D)
  = string_literal (NAS_PARSER_DEFAULT_NETWORK_PORT_NUMBER D).
Proof. repeat split. Qed.

(** ** The decimal accessor *)

Lemma atoi_digits_app (ds : list Z) : forall acc c rest,
  forallb isdigit ds = true -> isdigit c = false ->
  atoi_digits acc (ds ++ c :: rest)
  = Some (fold_left (fun v d => 10 * v + (d - '0')) ds acc).
Proof.
  induction ds as [|d ds IH]; intros acc c rest Hds Hc;
    cbn [app atoi_digits fold_left forallb] in *.
  - now rewrite Hc.
  - apply andb_prop in Hds as [-> Hds]. now apply IH.
Qed.

Lemma no_digit_head_terminated (rest : list Z) :
  no_digit_head rest = true ->
  exists c tl, rest ++ [0] = c :: tl /\ isdigit c = false.
Proof.
  destruct rest as [|c tl]; cbn [no_digit_head app]; intros H.
  - now exists 0, [].
  - exists c, (tl ++ [0]). split; [reflexivity|].
    now apply negb_true_iff.
Qed.

Lemma digit_not_space_nor_sign (c : Z) :
  isdigit c = true -> isspace c = false /\ (c =? 45) = false /\ (c =? 43) = false.
Proof. unfold isdigit, isspace. lia. Qed.

Lemma base10_nonneg (ds : list Z) : forall acc,
  forallb isdigit ds = true -> 0 <= acc ->
  0 <= fold_left (fun v d => 10 * v + (d - '0')) ds acc.
Proof.
  induction ds as [|d ds IH]; intros acc Hds Hacc;
    cbn [fold_left forallb] in *; [assumption|].
  apply andb_prop in Hds as [Hd Hds]. apply IH; [assumption|].
  unfold isdigit in Hd. lia.
Qed.

(** A literal that begins with decimal digits. *)
Lemma atoi_decimal (ds rest : string) :
  ds <> EmptyString ->
  forallb isdigit (chars ds) = true ->
  no_digit_head (chars rest) = true ->
  base10 (chars ds) <= Int.max_signed ->
  atoi (string_literal (ds ++ rest)) = Return (base10 (chars ds)).
Proof.
  intros Hne Hds Hrest Hfit. unfold atoi.
  rewrite chars_at_string_literal, chars_append, <- app_assoc.
  destruct (no_digit_head_terminated _ Hrest) as (c & tl & -> & Hc).
  assert (Hskip : atoi_skip (chars ds ++ c :: tl) = Some (base10 (chars ds))).
  { destruct ds as [|a ds]; [congruence|].
    cbn [chars app atoi_skip atoi_signed].
    pose proof Hds as Hds'. cbn [chars forallb] in Hds'.
    apply andb_prop in Hds' as [Ha _].
    destruct (digit_not_space_nor_sign _ Ha) as (-> & -> & ->).
    now apply (atoi_digits_app (char_of a :: chars ds)). }
  rewrite Hskip.
  pose proof (base10_nonneg (chars ds) 0 Hds (Z.le_refl 0)) as Hpos.
  fold (base10 (chars ds)) in Hpos.
  destruct (Z.leb_spec Int.min_signed (base10 (chars ds))) as [_|Hlt];
    [|unfold Int.min_signed in Hlt; rewrite IntFacts.half_modulus_eq in Hlt; lia].
  now apply Z.leb_le in Hfit as ->.
Qed.

(** A literal with nothing to read: empty, or beginning with a character
    that is neither white space, nor a sign, nor a digit. *)
Lemma atoi_no_number (s : string) :
  no_number_head (chars s) = true -> atoi (string_literal s) = Return 0.
Proof.
  intros H. unfold atoi. rewrite chars_at_string_literal.
  destruct (chars s) as [|c tl]; [reflexivity|].
  cbn [no_number_head] in H.
  apply andb_prop in H as [H Hdigit]. apply andb_prop in H as [Hspace Hsign].
  apply negb_true_iff in Hdigit, Hspace, Hsign.
  cbn [app atoi_skip atoi_signed atoi_digits]. rewrite Hspace.
  unfold is_sign in Hsign. apply orb_false_elim in Hsign as [-> ->].
  now rewrite Hdigit.
Qed.

(** C8, as the code has it: [nas_parser_get_ueid] is [atoi] applied to
    the value of the UE identifier descriptor, in every state of the
    table.  When that value is decimal digits followed by something that
    is not one, it returns the base-10 number the digits spell, provided
    it fits an [int]; when the value is empty or begins with a character
    that is neither white space, nor a sign, nor a digit, it returns 0;
    and with the table at its initial value it returns [atoi] of the
    default macro. *)
Theorem ueid_is_decimal_parse (D : default_macros) :
  (forall cl,
      nas_parser_get_ueid cl = atoi (pvalue (option_at cl NAS_PARSER_UE_ID))) /\
  (forall cl ds rest,
      pvalue (option_at cl NAS_PARSER_UE_ID) = string_literal (ds ++ rest) ->
      ds <> EmptyString ->
      forallb isdigit (chars ds) = true ->
      no_digit_head (chars rest) = true ->
      base10 (chars ds) <= Int.max_signed ->
      nas_parser_get_ueid cl = Return (base10 (chars ds))) /\
  (forall cl s,
      pvalue (option_at cl NAS_PARSER_UE_ID) = string_literal s ->
      no_number_head (chars s) = true ->
      nas_parser_get_ueid cl = Return 0) /\
  nas_parser_get_ueid (nasParserCommandLine D)
  = atoi (string_literal (NAS_PARSER_DEFAULT_UE_ID D)).
Proof.
  split; [reflexivity|]. split; [|split; [|reflexivity]].
  - intros cl ds rest Hv Hne Hds Hrest Hfit.
    unfold nas_parser_get_ueid. rewrite Hv. now apply atoi_decimal.
  - intros cl s Hv Hs.
    unfold nas_parser_get_ueid. rewrite Hv. now apply atoi_no_number.
Qed.

Lemma ueid_is_decimal_parse_default_1 :
  pvalue (option_at (nasParserCommandLine sample_macros) NAS_PARSER_UE_ID)
  = string_literal ("1" ++ "") /\
  "1"%string <> EmptyString /\
  forallb isdigit (chars "1") = true /\
  no_digit_head (chars "") = true /\
  base10 (chars "1") <= Int.max_signed /\
  nas_parser_get_ueid (nasParserCommandLine sample_macros) = Return 1.
Proof.
  split; [reflexivity|]. split; [discriminate|]. split; [reflexivity|].
  split; [reflexivity|]. split; [discriminate|].
  apply (proj1 (proj2 (ueid_is_decimal_parse sample_macros))
           (nasParserCommandLine sample_macros) "1"%string ""%string);
    [reflexivity | discriminate | reflexivity | reflexivity | discriminate].
Defined.

(** C8 as stated fails on a sign: the value ["-7"] begins with a
    character that is not a digit, and the accessor returns -7, not 0. *)
Lemma ueid_of_minus_seven :
  reachable sample_macros
    (parser_store (string_literal "nas") [Some (string_literal "-7")]
       (nasParserCommandLine sample_macros)) /\
  pvalue
    (option_at
       (parser_store (string_literal "nas") [Some (string_literal "-7")]
          (nasParserCommandLine sample_macros)) NAS_PARSER_UE_ID)
  = string_literal "-7" /\
  no_digit_head (chars "-7") = true /\
  nas_parser_get_ueid
    (parser_store (string_literal "nas") [Some (string_literal "-7")]
       (nasParserCommandLine sample_macros)) = Return (-7) /\
  nas_parser_get_ueid
    (parser_store (string_literal "nas") [Some (string_literal "-7")]
       (nasParserCommandLine sample_macros)) <> Return 0.
Proof.
  split; [apply reachable_parsed, reachable_initial|].
  repeat split. vm_compute. discriminate.
Qed.

(** ** The trace level accessor *)

(** [nas_parser_get_trace_level] hands the value of the trace descriptor
    to [atohex]: on a literal it is the wrapped base-16 reading of its hex
    prefix. *)
Lemma nas_parser_get_trace_level_literal (cl : parser_command_line_t)
  (ds rest : string) :
  pvalue (option_at cl NAS_PARSER_TRACE_LEVEL) = string_literal (ds ++ rest) ->
  forallb is_hex_digit (chars ds) = true ->
  no_hex_head (chars rest) = true ->
  nas_parser_get_trace_level cl = Return (Int.wrap (base16 (chars ds))).
Proof.
  intros Hv Hds Hrest. unfold nas_parser_get_trace_level.
  rewrite Hv. now apply atohex_literal.
Qed.


(** * Further properties of the code *)

(** ** The hex conversion on arbitrary blocks *)

Lemma scan_all_hex (cs : list Z) : forall result,
  forallb is_hex_digit cs = true -> scan result cs = Undefined.
Proof.
  induction cs as [|c cs IH]; intros result H; [reflexivity|].
  cbn [forallb] in H. apply andb_prop in H as [Hc H].
  cbn [scan]. rewrite Hc. now apply IH.
Qed.

Lemma skipn_length_app (pre cs : list Z) : skipn (List.length pre) (pre ++ cs) = cs.
Proof. induction pre as [|x pre IH]; [reflexivity | exact IH]. Qed.

(** X1: [atohex] needs no terminator, only a character that is not a hex
    digit.  Wherever the pointer stands in its block, if hex digits [ds]
    and then a character [c] that is not one lie ahead, the result is the
    wrapped base-16 reading of [ds], whatever comes after [c] (nothing
    after [c] is read) and whatever comes before the pointer. *)
Theorem atohex_stops_at_first_non_hex (pre ds tail : list Z) (c : Z) :
  forallb is_hex_digit ds = true ->
  is_hex_digit c = false ->
  atohex (Ptr (pre ++ ds ++ c :: tail) (List.length pre))
  = Return (Int.wrap (base16 ds)).
Proof.
  intros Hds Hc. rewrite atohex_scan by reflexivity.
  cbn [chars_at]. rewrite skipn_length_app.
  change 0 with (Int.wrap 0) at 1. rewrite scan_base16.
  assert (Hp : hex_prefix (ds ++ c :: tail) = ds).
  { apply hex_prefix_app; [assumption|]. cbn [no_hex_head]. now rewrite Hc. }
  rewrite Hp, length_app. cbn [List.length].
  destruct (Nat.ltb_spec (List.length ds) (List.length ds + S (List.length tail)));
    [reflexivity | lia].
Qed.

Lemma atohex_stops_at_first_non_hex_in_the_middle :
  forallb is_hex_digit (chars "7f") = true /\
  is_hex_digit (char_of ",") = false /\
  atohex (Ptr (chars "m=" ++ chars "7f" ++ char_of "," :: chars "10") 2)
  = Return 127.
Proof.
  split; [reflexivity|]. split; [reflexivity|].
  apply (atohex_stops_at_first_non_hex (chars "m=") (chars "7f") (chars "10")
           (char_of ",")); reflexivity.
Defined.

(** X2: only the [break] ends the loop.  When every character from the
    pointer to the end of its block is a hex digit (none at all
    included: a pointer at or past the end), the loop goes on to read
    past the end of the block and the run has no defined result. *)
Theorem atohex_reads_past_unterminated (blk : list Z) (ofs : nat) :
  forallb is_hex_digit (skipn ofs blk) = true ->
  atohex (Ptr blk ofs) = Undefined.
Proof.
  intros H. rewrite atohex_scan by reflexivity.
  now apply scan_all_hex.
Qed.

Lemma atohex_reads_past_unterminated_1F :
  forallb is_hex_digit (skipn 1 (chars "x1F")) = true /\
  atohex (Ptr (chars "x1F") 1) = Undefined.
Proof.
  split; [reflexivity|].
  apply (atohex_reads_past_unterminated (chars "x1F") 1). reflexivity.
Defined.

(** X3: leading zeros do not count.  Putting a ['0'] in front of any
    string, hex or not, long or short, leaves the result as it is. *)
Theorem atohex_leading_zero (s : string) :
  atohex (string_literal (String "0" s)) = atohex (string_literal s).
Proof.
  rewrite !atohex_scan by reflexivity.
  rewrite !chars_at_string_literal. reflexivity.
Qed.

(** ** Arithmetic of the base-16 reading *)

Lemma pow16_pos (n : nat) : 0 < 16 ^ Z.of_nat n.
Proof. apply Z.pow_pos_nonneg; lia. Qed.

Lemma pow16_succ (n : nat) : 16 ^ Z.of_nat (S n) = 16 * 16 ^ Z.of_nat n.
Proof. rewrite Nat2Z.inj_succ, Z.pow_succ_r by lia. reflexivity. Qed.

Lemma base16_from_shift (ds : list Z) : forall acc,
  base16_from acc ds = acc * 16 ^ Z.of_nat (List.length ds) + base16 ds.
Proof.
  unfold base16, base16_from.
  induction ds as [|d ds IH]; intros acc; cbn [fold_left List.length].
  - change (16 ^ Z.of_nat 0) with 1. ring.
  - rewrite (IH (16 * acc + hex_digit_value d)),
      (IH (16 * 0 + hex_digit_value d)), pow16_succ. ring.
Qed.

Lemma base16_app (ds1 ds2 : list Z) :
  base16 (ds1 ++ ds2)
  = base16 ds1 * 16 ^ Z.of_nat (List.length ds2) + base16 ds2.
Proof.
  rewrite <- base16_from_shift. unfold base16, base16_from.
  apply fold_left_app.
Qed.

Lemma base16_bound (ds : list Z) :
  forallb is_hex_digit ds = true ->
  0 <= base16 ds < 16 ^ Z.of_nat (List.length ds).
Proof.
  induction ds as [|d ds IH]; intros H.
  - cbn. lia.
  - cbn [forallb] in H. apply andb_prop in H as [Hd H].
    specialize (IH H). pose proof (hex_digit_value_range d Hd) as Hv.
    change (d :: ds) with ([d] ++ ds). rewrite base16_app.
    change (base16 [d]) with (16 * 0 + hex_digit_value d).
    cbn [app List.length]. rewrite pow16_succ.
    pose proof (pow16_pos (List.length ds)). nia.
Qed.

Lemma chars_length (s : string) : List.length (chars s) = String.length s.
Proof. induction s as [|a s IH]; cbn; [reflexivity | now rewrite IH]. Qed.

Lemma wrap_mul_add (a b k : Z) :
  Int.wrap (Int.wrap a * k + Int.wrap b) = Int.wrap (a * k + b).
Proof.
  destruct (IntFacts.wrap_decomp a) as [i ->].
  destruct (IntFacts.wrap_decomp b) as [j ->].
  apply IntFacts.wrap_shift with (k := i * k + j). ring.
Qed.

Lemma pow16_8 : 16 ^ Z.of_nat 8 = Int.modulus.
Proof. reflexivity. Qed.

Lemma string_append_assoc (s t u : string) :
  (s ++ (t ++ u))%string = ((s ++ t) ++ u)%string.
Proof. induction s as [|a s IH]; cbn; [reflexivity | now rewrite IH]. Qed.

(** A literal made of hex digits only. *)
Lemma atohex_digits (ds : string) :
  forallb is_hex_digit (chars ds) = true ->
  atohex (string_literal ds) = Return (Int.wrap (base16 (chars ds))).
Proof.
  intros Hds.
  rewrite atohex_terminated by apply nul_terminated_string_literal.
  rewrite chars_at_string_literal, hex_prefix_app; auto.
Qed.

(** ** The hex conversion: how digits combine *)

(** X4: reading [ds1] and then [ds2] is reading [ds1], shifting it left
    by four bits per digit of [ds2], and adding the reading of [ds2], all
    in 32-bit arithmetic. *)
Theorem atohex_append (ds1 ds2 rest : string) (r1 r2 : Z) :
  forallb is_hex_digit (chars ds1) = true ->
  forallb is_hex_digit (chars ds2) = true ->
  no_hex_head (chars rest) = true ->
  atohex (string_literal ds1) = Return r1 ->
  atohex (string_literal (ds2 ++ rest)) = Return r2 ->
  atohex (string_literal (ds1 ++ ds2 ++ rest))
  = Return (Int.wrap (r1 * 16 ^ Z.of_nat (String.length ds2) + r2)).
Proof.
  intros H1 H2 Hrest Hr1 Hr2.
  rewrite atohex_digits in Hr1 by assumption.
  rewrite atohex_literal in Hr2 by assumption.
  injection Hr1 as <-. injection Hr2 as <-.
  rewrite string_append_assoc, atohex_literal; try assumption.
  - rewrite wrap_mul_add, chars_append, base16_app, chars_length.
    reflexivity.
  - rewrite chars_append, forallb_app, H1, H2. reflexivity.
Qed.

Lemma atohex_append_12_34 :
  forallb is_hex_digit (chars "12") = true /\
  forallb is_hex_digit (chars "34") = true /\
  no_hex_head (chars "h") = true /\
  atohex (string_literal "12") = Return 18 /\
  atohex (string_literal ("34" ++ "h")) = Return 52 /\
  atohex (string_literal ("12" ++ "34" ++ "h")) = Return 4660.
Proof.
  repeat (split; [reflexivity|]).
  apply (atohex_append "12" "34" "h" 18 52); reflexivity.
Defined.

(** X5: only the last eight hex digits count.  Whatever hex digits
    precede the last eight of the prefix, they are shifted out. *)
Theorem atohex_last_eight_digits (hs ds rest : string) :
  forallb is_hex_digit (chars hs) = true ->
  forallb is_hex_digit (chars ds) = true ->
  String.length ds = 8%nat ->
  no_hex_head (chars rest) = true ->
  atohex (string_literal (hs ++ ds ++ rest))
  = atohex (string_literal (ds ++ rest)).
Proof.
  intros Hhs Hds Hlen Hrest.
  rewrite string_append_assoc, !atohex_literal; try assumption.
  - f_equal. rewrite chars_append, base16_app, chars_length, Hlen, pow16_8.
    apply IntFacts.wrap_shift with (k := base16 (chars hs)). ring.
  - rewrite chars_append, forallb_app, Hhs, Hds. reflexivity.
Qed.

Lemma atohex_last_eight_digits_drop_ABC :
  forallb is_hex_digit (chars "ABC") = true /\
  forallb is_hex_digit (chars "00000010") = true /\
  String.length "00000010" = 8%nat /\
  no_hex_head (chars "") = true /\
  atohex (string_literal ("ABC" ++ "00000010" ++ ""))
  = atohex (string_literal ("00000010" ++ "")).
Proof.
  repeat (split; [reflexivity|]).
  apply (atohex_last_eight_digits "ABC" "00000010" ""); reflexivity.
Defined.

(** X6: up to seven hex digits never overflow.  The result is then the
    base-16 number itself, it is not negative and it is below 16 to the
    number of digits. *)
Theorem atohex_short_prefix (ds rest : string) :
  forallb is_hex_digit (chars ds) = true ->
  no_hex_head (chars rest) = true ->
  (String.length ds <= 7)%nat ->
  atohex (string_literal (ds ++ rest)) = Return (base16 (chars ds)) /\
  0 <= base16 (chars ds) < 16 ^ Z.of_nat (String.length ds).
Proof.
  intros Hds Hrest Hlen.
  pose proof (base16_bound (chars ds) Hds) as Hb.
  rewrite chars_length in Hb. split; [|assumption].
  rewrite atohex_literal by assumption.
  rewrite IntFacts.wrap_small; [reflexivity|].
  assert (Hpow : 16 ^ Z.of_nat (String.length ds) <= 16 ^ 7)
    by (apply Z.pow_le_mono_r; lia).
  unfold Int.in_range, Int.min_signed, Int.max_signed.
  rewrite IntFacts.half_modulus_eq. change (16 ^ 7) with 268435456 in Hpow.
  lia.
Qed.

Lemma atohex_short_prefix_FFFFFFF :
  forallb is_hex_digit (chars "FFFFFFF") = true /\
  no_hex_head (chars "") = true /\
  (String.length "FFFFFFF" <= 7)%nat /\
  atohex (string_literal ("FFFFFFF" ++ "")) = Return 268435455.
Proof.
  split; [reflexivity|]. split; [reflexivity|]. split; [apply Nat.le_refl|].
  apply (atohex_short_prefix "FFFFFFF" ""); [reflexivity | reflexivity |].
  apply Nat.le_refl.
Defined.

(** ** The hex conversion: sign and bits *)

(** X7: with exactly eight hex digits the sign is the top bit of the
    first digit.  The result is the base-16 number when the first digit
    is below 8, and that number minus 2^32, a negative [int], when the
    first digit is 8 or more. *)
Theorem atohex_eight_digits_sign (a : ascii) (ds rest : string) :
  forallb is_hex_digit (chars (String a ds)) = true ->
  String.length ds = 7%nat ->
  no_hex_head (chars rest) = true ->
  exists r,
    atohex (string_literal (String a ds ++ rest)) = Return r /\
    (r < 0 <-> 8 <= hex_digit_value (char_of a)) /\
    r = (if 8 <=? hex_digit_value (char_of a)
         then base16 (chars (String a ds)) - Int.modulus
         else base16 (chars (String a ds))).
Proof.
  intros Hds Hlen Hrest.
  rewrite atohex_literal by assumption.
  eexists; split; [reflexivity|].
  cbn [chars forallb] in *. apply andb_prop in Hds as [Ha Hds].
  pose proof (hex_digit_value_range _ Ha) as Hv.
  pose proof (base16_bound _ Hds) as Hb.
  change (char_of a :: chars ds) with ([char_of a] ++ chars ds).
  rewrite base16_app, chars_length, Hlen in *.
  change (base16 [char_of a]) with (16 * 0 + hex_digit_value (char_of a)).
  change (16 ^ Z.of_nat 7) with 268435456 in *.
  rewrite IntFacts.modulus_eq.
  destruct (Z.leb_spec 8 (hex_digit_value (char_of a))) as [Hhi|Hlo].
  - rewrite (IntFacts.wrap_shift _
               ((16 * 0 + hex_digit_value (char_of a)) * 268435456
                + base16 (chars ds) - 4294967296) 1)
      by (rewrite IntFacts.modulus_eq; ring).
    rewrite IntFacts.wrap_small
      by (unfold Int.in_range, Int.min_signed, Int.max_signed;
          rewrite IntFacts.half_modulus_eq; lia).
    split; [lia | reflexivity].
  - rewrite IntFacts.wrap_small
      by (unfold Int.in_range, Int.min_signed, Int.max_signed;
          rewrite IntFacts.half_modulus_eq; lia).
    split; [lia | reflexivity].
Qed.

Lemma atohex_eight_digits_sign_80000001 :
  forallb is_hex_digit (chars "80000001") = true /\
  String.length "0000001" = 7%nat /\
  no_hex_head (chars "") = true /\
  exists r,
    atohex (string_literal ("80000001" ++ "")) = Return r /\
    (r < 0 <-> 8 <= hex_digit_value (char_of "8")) /\
    r = (if 8 <=? hex_digit_value (char_of "8")
         then base16 (chars "80000001") - Int.modulus
         else base16 (chars "80000001")).
Proof.
  repeat (split; [reflexivity|]).
  apply (atohex_eight_digits_sign "8" "0000001" ""); reflexivity.
Defined.

(** X8: the last hex digit of the prefix is the low four bits of the
    result, however long the prefix and whether or not it overflowed. *)
Theorem atohex_low_nibble (ds : string) (a : ascii) (rest : string) :
  forallb is_hex_digit (chars ds) = true ->
  is_hex_digit (char_of a) = true ->
  no_hex_head (chars rest) = true ->
  exists r,
    atohex (string_literal (ds ++ String a rest)) = Return r /\
    Z.land r 15 = hex_digit_value (char_of a).
Proof.
  intros Hds Ha Hrest.
  assert (Hsplit : (ds ++ String a rest)%string
                   = ((ds ++ String a EmptyString) ++ rest)%string)
    by (rewrite <- string_append_assoc; reflexivity).
  rewrite Hsplit, atohex_literal; try assumption.
  - eexists; split; [reflexivity|].
    rewrite chars_append, base16_app. cbn [chars List.length].
    change (base16 [char_of a]) with (16 * 0 + hex_digit_value (char_of a)).
    change (16 ^ Z.of_nat 1) with 16.
    pose proof (hex_digit_value_range _ Ha) as Hv.
    destruct (IntFacts.wrap_decomp
                (base16 (chars ds) * 16 + (16 * 0 + hex_digit_value (char_of a))))
      as [k ->].
    change 15 with (Z.ones 4). rewrite Z.land_ones by lia.
    change (2 ^ 4) with 16. rewrite IntFacts.modulus_eq.
    replace (base16 (chars ds) * 16 + (16 * 0 + hex_digit_value (char_of a))
             + k * 4294967296)
      with (hex_digit_value (char_of a)
            + (base16 (chars ds) + k * 268435456) * 16) by ring.
    rewrite Z_mod_plus_full. apply Z.mod_small. lia.
  - rewrite chars_append, forallb_app, Hds. cbn [chars forallb].
    now rewrite Ha.
Qed.

Lemma atohex_low_nibble_overflowed :
  forallb is_hex_digit (chars "FFFFFFFFF") = true /\
  is_hex_digit (char_of "7") = true /\
  no_hex_head (chars "") = true /\
  exists r,
    atohex (string_literal ("FFFFFFFFF" ++ String "7" "")) = Return r /\
    Z.land r 15 = 7.
Proof.
  repeat (split; [reflexivity|]).
  apply (atohex_low_nibble "FFFFFFFFF" "7" ""); reflexivity.
Defined.

(** ** The hex conversion: what the result tells about the string *)

Lemma same_value_same_digit (c d : Z) :
  is_hex_digit c = true -> is_hex_digit d = true ->
  hex_digit_value c = hex_digit_value d ->
  same_hex_digit c d = true.
Proof.
  rewrite !is_hex_digit_cases.
  unfold hex_digit_value, same_hex_digit, case_swap. intros Hc Hd.
  destruct (Z.leb_spec c '9'), (Z.leb_spec c 'F'),
           (Z.leb_spec d '9'), (Z.leb_spec d 'F'),
           (Z.leb_spec 'A' c), (Z.leb_spec 'a' c), (Z.leb_spec c 'f');
    cbn [andb]; intros Hv; rewrite orb_true_iff, !Z.eqb_eq; lia.
Qed.

Lemma base16_from_inj (ds1 : list Z) : forall ds2 a1 a2,
  List.length ds1 = List.length ds2 ->
  forallb is_hex_digit ds1 = true ->
  forallb is_hex_digit ds2 = true ->
  base16_from a1 ds1 = base16_from a2 ds2 ->
  a1 = a2 /\ case_variant ds1 ds2 = true.
Proof.
  induction ds1 as [|d1 ds1 IH]; intros [|d2 ds2] a1 a2 Hlen H1 H2 Heq;
    try discriminate.
  - now split.
  - cbn [forallb] in H1, H2.
    apply andb_prop in H1 as [Hd1 H1]. apply andb_prop in H2 as [Hd2 H2].
    injection Hlen as Hlen.
    destruct (IH ds2 (16 * a1 + hex_digit_value d1)
                (16 * a2 + hex_digit_value d2) Hlen H1 H2 Heq) as [Ha Hcv].
    pose proof (hex_digit_value_range _ Hd1).
    pose proof (hex_digit_value_range _ Hd2).
    split; [lia|].
    cbn [case_variant]. rewrite Hcv, same_value_same_digit by (auto; lia).
    reflexivity.
Qed.

(** X9: up to eight digits the result determines the digits.  Two
    strings of hex digits of the same length, at most eight, on which
    [atohex] returns the same integer differ at most in the case of
    their letter digits. *)
Theorem atohex_injective_up_to_case (s t : string) :
  forallb is_hex_digit (chars s) = true ->
  forallb is_hex_digit (chars t) = true ->
  String.length s = String.length t ->
  (String.length s <= 8)%nat ->
  atohex (string_literal s) = atohex (string_literal t) ->
  case_variant (chars s) (chars t) = true.
Proof.
  intros Hs Ht Hlen Hle Heq.
  rewrite !atohex_digits in Heq by assumption. injection Heq as Heq.
  apply (f_equal (fun z => z mod Int.modulus)) in Heq.
  rewrite !IntFacts.wrap_mod in Heq.
  pose proof (base16_bound _ Hs) as Bs. pose proof (base16_bound _ Ht) as Bt.
  rewrite chars_length in Bs, Bt. rewrite <- Hlen in Bt.
  assert (Hpow : 16 ^ Z.of_nat (String.length s) <= 16 ^ 8)
    by (apply Z.pow_le_mono_r; lia).
  change (16 ^ 8) with Int.modulus in Hpow.
  rewrite !Z.mod_small in Heq by lia.
  apply (base16_from_inj (chars s) (chars t) 0 0); try assumption.
  now rewrite !chars_length.
Qed.

Lemma atohex_injective_up_to_case_1a :
  forallb is_hex_digit (chars "1a") = true /\
  forallb is_hex_digit (chars "1A") = true /\
  String.length "1a" = String.length "1A" /\
  (String.length "1a" <= 8)%nat /\
  atohex (string_literal "1a") = atohex (string_literal "1A") /\
  case_variant (chars "1a") (chars "1A") = true.
Proof.
  split; [reflexivity|]. split; [reflexivity|]. split; [reflexivity|].
  split; [repeat constructor|]. split; [reflexivity|].
  apply (atohex_injective_up_to_case "1a" "1A");
    [reflexivity | reflexivity | reflexivity | repeat constructor | reflexivity].
Defined.

(** ** The trace level accessor never fails *)



(** ** The UE identifier: white space and sign *)

Lemma atoi_skip_spaces (ws : list Z) : forall cs,
  forallb isspace ws = true -> atoi_skip (ws ++ cs) = atoi_skip cs.
Proof.
  induction ws as [|w ws IH]; intros cs H; [reflexivity|].
  cbn [forallb] in H. apply andb_prop in H as [Hw H].
  cbn [app atoi_skip]. rewrite Hw. now apply IH.
Qed.

(** X11: the UE identifier may carry leading white space and a sign.
    When the value of its descriptor is white space [ws], then ['-'] or
    ['+'], then decimal digits [ds] that spell a number an [int] holds,
    then something that is not a digit, [nas_parser_get_ueid] returns
    that number, negated after ['-']. *)
Theorem nas_parser_get_ueid_signed (cl : parser_command_line_t)
  (negative : bool) (ws ds rest : string) :
  pvalue (option_at cl NAS_PARSER_UE_ID)
  = string_literal
      (ws ++ String (if negative then "-" else "+")%char (ds ++ rest)) ->
  forallb isspace (chars ws) = true ->
  forallb isdigit (chars ds) = true ->
  no_digit_head (chars rest) = true ->
  base10 (chars ds) <= Int.max_signed ->
  nas_parser_get_ueid cl
  = Return (if negative then - base10 (chars ds) else base10 (chars ds)).
Proof.
  intros Hv Hws Hds Hrest Hfit.
  unfold nas_parser_get_ueid, atoi. rewrite Hv.
  rewrite chars_at_string_literal, chars_append, <- app_assoc.
  rewrite atoi_skip_spaces by assumption.
  cbn [chars app]. rewrite chars_append, <- app_assoc.
  destruct (no_digit_head_terminated _ Hrest) as (c & tl & -> & Hc).
  pose proof (atoi_digits_app (chars ds) 0 c tl Hds Hc) as Hdig.
  fold (base10 (chars ds)) in Hdig.
  pose proof (base10_nonneg (chars ds) 0 Hds (Z.le_refl 0)) as Hpos.
  fold (base10 (chars ds)) in Hpos.
  unfold Int.max_signed, Int.min_signed in *.
  rewrite IntFacts.half_modulus_eq in *.
  destruct negative; cbn [atoi_skip atoi_signed]; cbn; rewrite Hdig;
    cbn [option_map];
    match goal with
    | |- (if ?b then _ else _) = _ =>
        replace b with true
          by (symmetry; rewrite andb_true_iff, !Z.leb_le; lia)
    end; reflexivity.
Qed.

Lemma nas_parser_get_ueid_signed_minus_12 :
  pvalue
    (option_at
       (mk_command_line NULL 1 [mk_option NULL NULL NULL (string_literal " -12;")])
       NAS_PARSER_UE_ID)
  = string_literal (" " ++ String "-" ("12" ++ ";")) /\
  forallb isspace (chars " ") = true /\
  forallb isdigit (chars "12") = true /\
  no_digit_head (chars ";") = true /\
  base10 (chars "12") <= Int.max_signed /\
  nas_parser_get_ueid
    (mk_command_line NULL 1 [mk_option NULL NULL NULL (string_literal " -12;")])
  = Return (-12).
Proof.
  split; [reflexivity|]. split; [reflexivity|]. split; [reflexivity|].
  split; [reflexivity|]. split; [discriminate|].
  apply (nas_parser_get_ueid_signed
           (mk_command_line NULL 1
              [mk_option NULL NULL NULL (string_literal " -12;")])
           true " " "12" ";");
    [reflexivity | reflexivity | reflexivity | reflexivity | discriminate].
Defined.

(** ** Usage printing *)




(** ** The table as initialised *)

(** X13: the identifiers of the [enum] and the rows of the table are in
    the same order: whatever the macros, the descriptor each identifier
    selects in the initial table carries the flag the identifier is
    named after, the eight flags are pairwise distinct, and no value
    pointer is null. *)
Theorem initial_table_rows_match_identifiers (D : default_macros) :
  c_string (opt_name (option_at (nasParserCommandLine D) NAS_PARSER_UE_ID))
  = Some (chars "-ueid") /\
  c_string (opt_name (option_at (nasParserCommandLine D) NAS_PARSER_TRACE_LEVEL))
  = Some (chars "-trace") /\
  c_string (opt_name (option_at (nasParserCommandLine D) NAS_PARSER_USER_HOST))
  = Some (chars "-uhost") /\
  c_string (opt_name (option_at (nasParserCommandLine D) NAS_PARSER_NETWORK_HOST))
  = Some (chars "-nhost") /\
  c_string (opt_name (option_at (nasParserCommandLine D) NAS_PARSER_USER_PORT))
  = Some (chars "-uport") /\
  c_string (opt_name (option_at (nasParserCommandLine D) NAS_PARSER_NETWORK_PORT))
  = Some (chars "-nport") /\
  c_string (opt_name (option_at (nasParserCommandLine D) NAS_PARSER_DEVICE_PATH))
  = Some (chars "-dev") /\
  c_string (opt_name (option_at (nasParserCommandLine D) NAS_PARSER_DEVICE_ATTR))
  = Some (chars "-params") /\
  NoDup (option_names (nasParserCommandLine D)) /\
  forallb (fun o => negb (is_null (pvalue o))) (options (nasParserCommandLine D))
  = true.
Proof.
  repeat (split; [reflexivity|]). split; [|reflexivity].
  unfold option_names. cbn.
  repeat (constructor; [cbn; intuition discriminate|]). constructor.
Qed.

